(** * Kitura-net: the libcurl option shims of CurlHelpers.c

    CurlHelpers.c (present twice in the repository, with identical bodies)
    is a set of small C functions that forward to the variadic
    [curl_easy_setopt] of libcurl with a value of the right C type.  The
    shims own no state: everything they do is visible as the sequence of
    engine calls they issue and the result code they hand back.

    The development therefore models a shim as a program over one
    primitive, the engine call, and runs such programs against an
    arbitrary engine.  Claims about the order of calls are statements about
    the recorded exchanges; claims about the session afterwards are proved
    for every engine that satisfies the stated option-store laws.  The two
    [curl_easy_getinfo] wrappers are outside the properties studied here. *)

From Stdlib Require Import ZArith List String Bool Lia.
Import ListNotations.
Local Open Scope Z_scope.

(** ** Vocabulary of the engine *)

(** [CURL *curl]: the session handle, an address the shims only pass on. *)
Definition CURL := Z.

(** [void *userData] and the two callback function pointers. *)
Definition pointer := Z.
Definition NULL : pointer := 0.

(** CurlHelpers.h: [#define CURL_TRUE 1] and [#define CURL_FALSE 0]. *)
Definition CURL_TRUE : Z := 1.
Definition CURL_FALSE : Z := 0.

(** Modelled from the spec: the result enumeration of <curl/curl.h>, which
    the repository imports but does not contain.  The shims only compare a
    code with [CURLE_OK]; every other member is an engine-defined failure
    category, kept apart by its number. *)
Inductive CURLcode : Type :=
| CURLE_OK
| CURLE_FAILED (category : positive).

Definition CURLcode_eqb (a b : CURLcode) : bool :=
  match a, b with
  | CURLE_OK, CURLE_OK => true
  | CURLE_FAILED m, CURLE_FAILED n => Pos.eqb m n
  | _, _ => false
  end.

(** Modelled from the spec: the option enumeration of <curl/curl.h>.  The
    six members named in CurlHelpers.c are constructors of their own;
    [CURLOPT_OTHER] stands for the rest of the enumeration, which callers
    of the generic shims may pass. *)
Inductive CURLoption : Type :=
| CURLOPT_HTTPHEADER
| CURLOPT_READDATA
| CURLOPT_READFUNCTION
| CURLOPT_HEADER
| CURLOPT_WRITEDATA
| CURLOPT_WRITEFUNCTION
| CURLOPT_OTHER (id : Z).

Definition CURLoption_eqb (a b : CURLoption) : bool :=
  match a, b with
  | CURLOPT_HTTPHEADER, CURLOPT_HTTPHEADER => true
  | CURLOPT_READDATA, CURLOPT_READDATA => true
  | CURLOPT_READFUNCTION, CURLOPT_READFUNCTION => true
  | CURLOPT_HEADER, CURLOPT_HEADER => true
  | CURLOPT_WRITEDATA, CURLOPT_WRITEDATA => true
  | CURLOPT_WRITEFUNCTION, CURLOPT_WRITEFUNCTION => true
  | CURLOPT_OTHER m, CURLOPT_OTHER n => Z.eqb m n
  | _, _ => false
  end.

(** The third, variadic argument of [curl_easy_setopt], tagged with the C
    type the shim passes it at.  A [struct curl_slist *] is the ordered
    list of header lines it points to (the null pointer is the empty list)
    and a [char *] the string it points to; [void *] and function pointers
    stay addresses, since the shims never look behind them. *)
Inductive param : Type :=
| PLong (n : Z)
| PSlist (headers : list string)
| PString (data : string)
| PObject (p : pointer)
| PFunction (f : pointer).

(** One call of [curl_easy_setopt] as the shim issues it ... *)
Record Request : Type := mkRequest {
  rq_curl : CURL;
  rq_option : CURLoption;
  rq_param : param
}.

(** ... and the same call together with the code the engine answered. *)
Record Exchange : Type := mkExchange {
  request : Request;
  code : CURLcode
}.

(** ** Shim programs *)

(** A shim either returns, or calls the engine and continues with the code
    it gets back.  There is no other effect in CurlHelpers.c. *)
Inductive Shim (A : Type) : Type :=
| Return (a : A)
| Call (rq : Request) (k : CURLcode -> Shim A).

Arguments Return {A} a.
Arguments Call {A} rq k.

Fixpoint bind {A B : Type} (p : Shim A) (f : A -> Shim B) : Shim B :=
  match p with
  | Return a => f a
  | Call rq k => Call rq (fun rc => bind (k rc) f)
  end.

Declare Scope shim_scope.
Delimit Scope shim_scope with shim.
Notation "x <- p ;; q" := (bind p (fun x => q))
  (at level 61, p at next level, right associativity) : shim_scope.
Local Open Scope shim_scope.

Definition curl_easy_setopt (curl : CURL) (option : CURLoption) (v : param)
  : Shim CURLcode :=
  Call (mkRequest curl option v) Return.

(** [return curl_easy_setopt(curl, option, yesNo == CURL_TRUE ? 1L : 0L);]
    with [int yesNo]; the comparison does not depend on the width of an
    int, so the input ranges over all of [Z]. *)
Definition curlHelperSetOptBool (curl : CURL) (option : CURLoption) (yesNo : Z)
  : Shim CURLcode :=
  curl_easy_setopt curl option (PLong (if yesNo =? CURL_TRUE then 1 else 0)).

(** [return curl_easy_setopt(curl, CURLOPT_HTTPHEADER, headers);] *)
Definition curlHelperSetOptHeaders (curl : CURL) (headers : list string)
  : Shim CURLcode :=
  curl_easy_setopt curl CURLOPT_HTTPHEADER (PSlist headers).

(** [return curl_easy_setopt(curl, option, data);] with [long data]. *)
Definition curlHelperSetOptInt (curl : CURL) (option : CURLoption) (data : Z)
  : Shim CURLcode :=
  curl_easy_setopt curl option (PLong data).

(** [return curl_easy_setopt(curl, option, data);] with [char *data]. *)
Definition curlHelperSetOptString (curl : CURL) (option : CURLoption)
  (data : string) : Shim CURLcode :=
  curl_easy_setopt curl option (PString data).

(** [[
      CURLcode rc = curl_easy_setopt(curl, CURLOPT_READDATA, userData);
      if (rc == CURLE_OK) {
          rc = curl_easy_setopt(curl, CURLOPT_READFUNCTION, read_cb);
      }
      return rc;
    ]]
    The local [rc] is assigned, tested, possibly assigned again and
    returned; each assignment is a binding of the same name. *)
Definition curlHelperSetOptReadFunc (curl : CURL) (userData : pointer)
  (read_cb : pointer) : Shim CURLcode :=
  rc <- curl_easy_setopt curl CURLOPT_READDATA (PObject userData) ;;
  rc <- (if CURLcode_eqb rc CURLE_OK
         then curl_easy_setopt curl CURLOPT_READFUNCTION (PFunction read_cb)
         else Return rc) ;;
  Return rc.

(** [[
      CURLcode rc = curl_easy_setopt(curl, CURLOPT_HEADER, 1);
      if (rc == CURLE_OK) {
          rc = curl_easy_setopt(curl, CURLOPT_WRITEDATA, userData);
          if (rc == CURLE_OK) {
              rc = curl_easy_setopt(curl, CURLOPT_WRITEFUNCTION, write_cb);
          }
      }
      return rc;
    ]]
    The first call passes the constant [1]; the engine reads the argument
    of [CURLOPT_HEADER] as a long. *)
Definition curlHelperSetOptWriteFunc (curl : CURL) (userData : pointer)
  (write_cb : pointer) : Shim CURLcode :=
  rc <- curl_easy_setopt curl CURLOPT_HEADER (PLong 1) ;;
  rc <- (if CURLcode_eqb rc CURLE_OK
         then
           rc <- curl_easy_setopt curl CURLOPT_WRITEDATA (PObject userData) ;;
           rc <- (if CURLcode_eqb rc CURLE_OK
                  then curl_easy_setopt curl CURLOPT_WRITEFUNCTION
                         (PFunction write_cb)
                  else Return rc) ;;
           Return rc
         else Return rc) ;;
  Return rc.

(** ** Engines *)

(** The transfer engine behind [curl_easy_setopt] is not part of the
    repository, so it is a parameter of everything below: a type of engine
    states, the effect of one call on it, and the value a session
    currently holds for an option ([None]: never set). *)
Record Engine : Type := mkEngine {
  world : Type;
  easy_setopt : world -> CURL -> CURLoption -> param -> CURLcode * world;
  installed : world -> CURL -> CURLoption -> option param
}.

Definition serve (E : Engine) (w : world E) (rq : Request)
  : CURLcode * world E :=
  easy_setopt E w (rq_curl rq) (rq_option rq) (rq_param rq).

(** What running a shim leaves behind: its return value, the engine state,
    and the exchanges with the engine, oldest first. *)
Record Outcome (A W : Type) : Type := mkOutcome {
  result : A;
  final : W;
  trace : list Exchange
}.

Arguments mkOutcome {A W} result final trace.
Arguments result {A W} o.
Arguments final {A W} o.
Arguments trace {A W} o.

Fixpoint run {A : Type} (E : Engine) (p : Shim A) (w : world E)
  : Outcome A (world E) :=
  match p with
  | Return a => mkOutcome a w []
  | Call rq k =>
      let (rc, w') := serve E w rq in
      let o := run E (k rc) w' in
      mkOutcome (result o) (final o) (mkExchange rq rc :: trace o)
  end.

(** The engine state reached by issuing a list of requests in order. *)
Fixpoint replay (E : Engine) (rqs : list Request) (w : world E) : world E :=
  match rqs with
  | [] => w
  | rq :: rest => replay E rest (snd (serve E w rq))
  end.

(** Every recorded code is the one the engine gave at that point. *)
Fixpoint answered (E : Engine) (w : world E) (tr : list Exchange) : Prop :=
  match tr with
  | [] => True
  | x :: rest =>
      code x = fst (serve E w (request x)) /\
      answered E (snd (serve E w (request x))) rest
  end.

(** ** Laws of an option store

    The claims that speak of the session after a call need to know what an
    accepted or a refused option does to it.  Each law is a hypothesis of
    the theorems that use it, never a global assumption. *)

(** An accepted value is the one the session then holds. *)
Definition Stores (E : Engine) : Prop :=
  forall w curl option v w',
    easy_setopt E w curl option v = (CURLE_OK, w') ->
    installed E w' curl option = Some v.

(** A call leaves every other option, and every other session, alone. *)
Definition Frame (E : Engine) : Prop :=
  forall w curl option v curl' option',
    (curl', option') <> (curl, option) ->
    installed E (snd (easy_setopt E w curl option v)) curl' option'
    = installed E w curl' option'.

(** A refused call changes nothing. *)
Definition RejectNoop (E : Engine) : Prop :=
  forall w curl option v rc w',
    easy_setopt E w curl option v = (rc, w') ->
    rc <> CURLE_OK ->
    w' = w.

(** ** A reference engine

    Sessions as a table of installed options, and a policy that decides
    each call from the table and the request. *)

Definition store := CURL -> CURLoption -> option param.

Definition empty_store : store := fun _ _ => None.

Definition store_set (s : store) (curl : CURL) (option : CURLoption)
  (v : param) : store :=
  fun curl' option' =>
    if (curl' =? curl) && CURLoption_eqb option' option
    then Some v
    else s curl' option'.

Definition policy := store -> CURL -> CURLoption -> param -> CURLcode.

Definition store_engine (pol : policy) : Engine :=
  mkEngine store
    (fun s curl option v =>
       match pol s curl option v with
       | CURLE_OK => (CURLE_OK, store_set s curl option v)
       | CURLE_FAILED n => (CURLE_FAILED n, s)
       end)
    (fun s curl option => s curl option).

(** Accepts everything, a null callback included. *)
Definition permissive : policy := fun _ _ _ _ => CURLE_OK.

(** Refuses a null callback (category 43, a bad function argument) and
    accepts everything else. *)
Definition refuse_null_function : policy :=
  fun _ _ _ v =>
    match v with
    | PFunction f => if f =? NULL then CURLE_FAILED 43 else CURLE_OK
    | _ => CURLE_OK
    end.

(** Refuses one option (category 48, an unknown option) on every session. *)
Definition refuse_option (bad : CURLoption) : policy :=
  fun _ _ option _ =>
    if CURLoption_eqb option bad then CURLE_FAILED 48 else CURLE_OK.

(** ** Vocabulary of the statements *)

(** The three registrations, in the order of the source. *)
Definition write_registration (curl : CURL) (userData write_cb : pointer)
  : list Request :=
  [mkRequest curl CURLOPT_HEADER (PLong 1);
   mkRequest curl CURLOPT_WRITEDATA (PObject userData);
   mkRequest curl CURLOPT_WRITEFUNCTION (PFunction write_cb)].

(** Splits a trace of at most three exchanges around one of them. *)
Ltac split_trace H pre :=
  destruct pre as [| ? [| ? [| ? [| ? pre]]]]; cbn [app] in H;
  inversion H; subst; clear H.

(** ** The option-setting interface as data

    CurlHelpers.h declares six option-setting functions.  A call of one of
    them, with its arguments, is an [Operation]; [perform] is the function
    called.  This lets statements range over all six at once and over
    sequences of calls. *)
Inductive Operation : Type :=
| SetOptBool (curl : CURL) (option : CURLoption) (yesNo : Z)
| SetOptHeaders (curl : CURL) (headers : list string)
| SetOptInt (curl : CURL) (option : CURLoption) (data : Z)
| SetOptString (curl : CURL) (option : CURLoption) (data : string)
| SetOptReadFunc (curl : CURL) (userData read_cb : pointer)
| SetOptWriteFunc (curl : CURL) (userData write_cb : pointer).

Definition perform (op : Operation) : Shim CURLcode :=
  match op with
  | SetOptBool curl option yesNo => curlHelperSetOptBool curl option yesNo
  | SetOptHeaders curl headers => curlHelperSetOptHeaders curl headers
  | SetOptInt curl option data => curlHelperSetOptInt curl option data
  | SetOptString curl option data => curlHelperSetOptString curl option data
  | SetOptReadFunc curl userData read_cb =>
      curlHelperSetOptReadFunc curl userData read_cb
  | SetOptWriteFunc curl userData write_cb =>
      curlHelperSetOptWriteFunc curl userData write_cb
  end.

(** The handle an operation is given. *)
Definition session_of (op : Operation) : CURL :=
  match op with
  | SetOptBool curl _ _ | SetOptHeaders curl _ | SetOptInt curl _ _
  | SetOptString curl _ _ | SetOptReadFunc curl _ _
  | SetOptWriteFunc curl _ _ => curl
  end.

(** The options named in the body of the function, in the order of its
    calls. *)
Definition options_of (op : Operation) : list CURLoption :=
  match op with
  | SetOptBool _ option _ | SetOptInt _ option _ | SetOptString _ option _ =>
      [option]
  | SetOptHeaders _ _ => [CURLOPT_HTTPHEADER]
  | SetOptReadFunc _ _ _ => [CURLOPT_READDATA; CURLOPT_READFUNCTION]
  | SetOptWriteFunc _ _ _ =>
      [CURLOPT_HEADER; CURLOPT_WRITEDATA; CURLOPT_WRITEFUNCTION]
  end.

(** A caller issuing operations one after the other, ignoring the codes. *)
Fixpoint perform_all (E : Engine) (ops : list Operation) (w : world E)
  : world E :=
  match ops with
  | [] => w
  | op :: rest => perform_all E rest (final (run E (perform op) w))
  end.

(** The two registrations of the read callback, in the order of the
    source. *)
Definition read_registration (curl : CURL) (userData read_cb : pointer)
  : list Request :=
  [mkRequest curl CURLOPT_READDATA (PObject userData);
   mkRequest curl CURLOPT_READFUNCTION (PFunction read_cb)].

(** The engine calls in the body of the function, in their order, with
    the value each one passes. *)
Definition requests_of (op : Operation) : list Request :=
  match op with
  | SetOptBool curl option yesNo =>
      [mkRequest curl option (PLong (if yesNo =? CURL_TRUE then 1 else 0))]
  | SetOptHeaders curl headers =>
      [mkRequest curl CURLOPT_HTTPHEADER (PSlist headers)]
  | SetOptInt curl option data => [mkRequest curl option (PLong data)]
  | SetOptString curl option data => [mkRequest curl option (PString data)]
  | SetOptReadFunc curl userData read_cb =>
      read_registration curl userData read_cb
  | SetOptWriteFunc curl userData write_cb =>
      write_registration curl userData write_cb
  end.

(** The session and option a call is for. *)
Definition target (rq : Request) : CURL * CURLoption :=
  (rq_curl rq, rq_option rq).

(** A trace in which every call but the last succeeded, with [res] the
    code of the last call. *)
Fixpoint chain (tr : list Exchange) (res : CURLcode) : Prop :=
  match tr with
  | [] => False
  | x :: rest =>
      match rest with
      | [] => code x = res
      | _ :: _ => code x = CURLE_OK /\ chain rest res
      end
  end.

(** ** Basic facts *)

Lemma CURLcode_eqb_eq (a b : CURLcode) : CURLcode_eqb a b = true <-> a = b.
Proof.
  destruct a as [|m], b as [|n]; simpl; split; intros H;
    try reflexivity; try discriminate.
  - apply Pos.eqb_eq in H. now subst.
  - injection H as ->. apply Pos.eqb_refl.
Qed.

Lemma CURLcode_eqb_OK (rc : CURLcode) :
  CURLcode_eqb rc CURLE_OK = true <-> rc = CURLE_OK.
Proof. apply CURLcode_eqb_eq. Qed.

Lemma CURLcode_OK_dec (rc : CURLcode) : {rc = CURLE_OK} + {rc <> CURLE_OK}.
Proof. destruct rc; [left; reflexivity | right; discriminate]. Qed.

Lemma CURLoption_eqb_eq (a b : CURLoption) :
  CURLoption_eqb a b = true <-> a = b.
Proof.
  destruct a, b; simpl; split; intros H;
    try reflexivity; try discriminate.
  - apply Z.eqb_eq in H. now subst.
  - injection H as ->. apply Z.eqb_refl.
Qed.

Lemma CURLoption_eqb_refl (a : CURLoption) : CURLoption_eqb a a = true.
Proof. now apply CURLoption_eqb_eq. Qed.

Lemma CURLoption_eqb_neq (a b : CURLoption) :
  CURLoption_eqb a b = false <-> a <> b.
Proof.
  rewrite <- CURLoption_eqb_eq. destruct (CURLoption_eqb a b); split;
    intros H; try reflexivity; try discriminate; try easy.
Qed.

(** ** Running programs *)

Section Run.

Variable E : Engine.

Lemma run_bind {A B : Type} (p : Shim A) (f : A -> Shim B) (w : world E) :
  run E (bind p f) w =
  let o := run E p w in
  let o' := run E (f (result o)) (final o) in
  mkOutcome (result o') (final o') (trace o ++ trace o').
Proof.
  revert w. induction p as [a | rq k IH]; intros w; simpl.
  - now destruct (run E (f a) w).
  - destruct (serve E w rq) as [rc w']. rewrite IH. reflexivity.
Qed.

(** The final state is reached through the recorded requests and through
    nothing else. *)
Lemma run_replay {A : Type} (p : Shim A) (w : world E) :
  final (run E p w) = replay E (map request (trace (run E p w))) w.
Proof.
  revert w. induction p as [a | rq k IH]; intros w; simpl.
  - reflexivity.
  - destruct (serve E w rq) as [rc w'] eqn:Hs. simpl.
    rewrite Hs. simpl. apply IH.
Qed.

(** The recorded codes are the engine's own. *)
Lemma run_answered {A : Type} (p : Shim A) (w : world E) :
  answered E w (trace (run E p w)).
Proof.
  revert w. induction p as [a | rq k IH]; intros w; simpl.
  - exact I.
  - destruct (serve E w rq) as [rc w'] eqn:Hs. simpl.
    rewrite Hs. simpl. split; [reflexivity | apply IH].
Qed.

Lemma run_setopt (curl : CURL) (opt : CURLoption) (v : param) (w : world E) :
  run E (curl_easy_setopt curl opt v) w =
  mkOutcome (fst (easy_setopt E w curl opt v))
            (snd (easy_setopt E w curl opt v))
            [mkExchange (mkRequest curl opt v)
                        (fst (easy_setopt E w curl opt v))].
Proof.
  unfold curl_easy_setopt, run, serve. simpl.
  now destruct (easy_setopt E w curl opt v).
Qed.

End Run.

(** ** The reference engine obeys the laws, whatever its policy *)

Lemma store_set_same (s : store) (curl : CURL) (opt : CURLoption) (v : param) :
  store_set s curl opt v curl opt = Some v.
Proof.
  unfold store_set. now rewrite Z.eqb_refl, CURLoption_eqb_refl.
Qed.

Lemma store_set_other (s : store) (curl curl' : CURL) (opt opt' : CURLoption)
  (v : param) :
  (curl', opt') <> (curl, opt) ->
  store_set s curl opt v curl' opt' = s curl' opt'.
Proof.
  intros Hne. unfold store_set.
  destruct (Z.eqb_spec curl' curl) as [-> | Hc]; simpl; [| reflexivity].
  destruct (CURLoption_eqb opt' opt) eqn:Ho; [| reflexivity].
  apply CURLoption_eqb_eq in Ho. subst. now elim Hne.
Qed.

Lemma store_engine_Stores (pol : policy) : Stores (store_engine pol).
Proof.
  intros s curl opt v s'. simpl.
  destruct (pol s curl opt v); intros H; inversion H; subst.
  apply store_set_same.
Qed.

Lemma store_engine_Frame (pol : policy) : Frame (store_engine pol).
Proof.
  intros s curl opt v curl' opt' Hne. simpl.
  destruct (pol s curl opt v); simpl; [| reflexivity].
  now apply store_set_other.
Qed.

Lemma store_engine_RejectNoop (pol : policy) : RejectNoop (store_engine pol).
Proof.
  intros s curl opt v rc s'. simpl.
  destruct (pol s curl opt v); intros H Hrc; inversion H; subst.
  - now elim Hrc.
  - reflexivity.
Qed.

(** ** What each shim does, call by call *)

Section Shims.

Variable E : Engine.

(** The value [curlHelperSetOptBool] sends for an input. *)
Lemma run_curlHelperSetOptBool (curl : CURL) (opt : CURLoption) (yesNo : Z)
  (w : world E) :
  run E (curlHelperSetOptBool curl opt yesNo) w =
  run E (curl_easy_setopt curl opt
           (PLong (if yesNo =? CURL_TRUE then 1 else 0))) w.
Proof. reflexivity. Qed.

Lemma run_curlHelperSetOptReadFunc (curl : CURL) (userData read_cb : pointer)
  (w : world E) :
  forall r1 r2,
    r1 = easy_setopt E w curl CURLOPT_READDATA (PObject userData) ->
    r2 = easy_setopt E (snd r1) curl CURLOPT_READFUNCTION
           (PFunction read_cb) ->
    run E (curlHelperSetOptReadFunc curl userData read_cb) w =
    if CURLcode_eqb (fst r1) CURLE_OK
    then mkOutcome (fst r2) (snd r2)
           [mkExchange (mkRequest curl CURLOPT_READDATA (PObject userData))
                       (fst r1);
            mkExchange (mkRequest curl CURLOPT_READFUNCTION
                          (PFunction read_cb)) (fst r2)]
    else mkOutcome (fst r1) (snd r1)
           [mkExchange (mkRequest curl CURLOPT_READDATA (PObject userData))
                       (fst r1)].
Proof.
  intros r1 r2 -> ->. unfold curlHelperSetOptReadFunc.
  rewrite run_bind, run_setopt. cbn [result final trace].
  destruct (easy_setopt E w curl CURLOPT_READDATA (PObject userData))
    as [rc1 w1]. cbn [fst snd].
  destruct (CURLcode_eqb rc1 CURLE_OK).
  - rewrite run_bind, run_setopt. reflexivity.
  - reflexivity.
Qed.

Lemma run_curlHelperSetOptWriteFunc (curl : CURL)
  (userData write_cb : pointer) (w : world E) :
  forall r1 r2 r3,
    r1 = easy_setopt E w curl CURLOPT_HEADER (PLong 1) ->
    r2 = easy_setopt E (snd r1) curl CURLOPT_WRITEDATA (PObject userData) ->
    r3 = easy_setopt E (snd r2) curl CURLOPT_WRITEFUNCTION
           (PFunction write_cb) ->
    run E (curlHelperSetOptWriteFunc curl userData write_cb) w =
    if CURLcode_eqb (fst r1) CURLE_OK
    then
      if CURLcode_eqb (fst r2) CURLE_OK
      then mkOutcome (fst r3) (snd r3)
             [mkExchange (mkRequest curl CURLOPT_HEADER (PLong 1)) (fst r1);
              mkExchange (mkRequest curl CURLOPT_WRITEDATA
                            (PObject userData)) (fst r2);
              mkExchange (mkRequest curl CURLOPT_WRITEFUNCTION
                            (PFunction write_cb)) (fst r3)]
      else mkOutcome (fst r2) (snd r2)
             [mkExchange (mkRequest curl CURLOPT_HEADER (PLong 1)) (fst r1);
              mkExchange (mkRequest curl CURLOPT_WRITEDATA
                            (PObject userData)) (fst r2)]
    else mkOutcome (fst r1) (snd r1)
           [mkExchange (mkRequest curl CURLOPT_HEADER (PLong 1)) (fst r1)].
Proof.
  intros r1 r2 r3 -> -> ->. unfold curlHelperSetOptWriteFunc.
  rewrite run_bind, run_setopt. cbn [result final trace].
  destruct (easy_setopt E w curl CURLOPT_HEADER (PLong 1)) as [rc1 w1].
  cbn [fst snd].
  destruct (CURLcode_eqb rc1 CURLE_OK); [| reflexivity].
  rewrite !run_bind, run_setopt. cbn [result final trace].
  destruct (easy_setopt E w1 curl CURLOPT_WRITEDATA (PObject userData))
    as [rc2 w2]. cbn [fst snd].
  destruct (CURLcode_eqb rc2 CURLE_OK); [| reflexivity].
  rewrite run_bind, run_setopt. reflexivity.
Qed.

(** The two plain forwarding shims pass their value through untouched. *)
Lemma run_curlHelperSetOptInt (curl : CURL) (opt : CURLoption) (data : Z)
  (w : world E) :
  map request (trace (run E (curlHelperSetOptInt curl opt data) w))
  = [mkRequest curl opt (PLong data)].
Proof. unfold curlHelperSetOptInt. now rewrite run_setopt. Qed.

Lemma run_curlHelperSetOptString (curl : CURL) (opt : CURLoption)
  (data : string) (w : world E) :
  map request (trace (run E (curlHelperSetOptString curl opt data) w))
  = [mkRequest curl opt (PString data)].
Proof. unfold curlHelperSetOptString. now rewrite run_setopt. Qed.

End Shims.

(** Concrete runs on the reference engine. *)

Example set_flag_true_run :
  run (store_engine permissive) (curlHelperSetOptBool 1 CURLOPT_HEADER 1)
      empty_store
  = mkOutcome CURLE_OK (store_set empty_store 1 CURLOPT_HEADER (PLong 1))
      [mkExchange (mkRequest 1 CURLOPT_HEADER (PLong 1)) CURLE_OK].
Proof. reflexivity. Qed.

Example set_flag_two_run :
  trace (run (store_engine permissive)
           (curlHelperSetOptBool 1 (CURLOPT_OTHER 64) 2) empty_store)
  = [mkExchange (mkRequest 1 (CURLOPT_OTHER 64) (PLong 0)) CURLE_OK].
Proof. reflexivity. Qed.

Example write_refused_at_second_step :
  let o := run (store_engine (refuse_option CURLOPT_WRITEDATA))
             (curlHelperSetOptWriteFunc 1 7 9) empty_store in
  result o = CURLE_FAILED 48 /\
  map request (trace o) =
    [mkRequest 1 CURLOPT_HEADER (PLong 1);
     mkRequest 1 CURLOPT_WRITEDATA (PObject 7)] /\
  installed _ (final o) 1 CURLOPT_HEADER = Some (PLong 1) /\
  installed _ (final o) 1 CURLOPT_WRITEDATA = None.
Proof. repeat split. Qed.

Example read_null_accepted :
  result (run (store_engine permissive)
            (curlHelperSetOptReadFunc 1 7 NULL) empty_store) = CURLE_OK.
Proof. reflexivity. Qed.

(** ** set_flag: [curlHelperSetOptBool] *)

(** C1, as the specification words it, fails: the input 2 is nonzero and
    is neither sentinel, yet the engine is sent 0 for it, not 1. *)
Lemma set_flag_does_not_promote_nonzero :
  map request
    (trace (run (store_engine permissive)
              (curlHelperSetOptBool 1 CURLOPT_HEADER 2) empty_store))
  = [mkRequest 1 CURLOPT_HEADER (PLong 0)]
  /\ ~ (forall (E : Engine) (w : world E) (curl : CURL) (opt : CURLoption)
          (yesNo : Z),
          yesNo <> CURL_FALSE ->
          map request (trace (run E (curlHelperSetOptBool curl opt yesNo) w))
          = [mkRequest curl opt (PLong 1)]).
Proof.
  split; [reflexivity |].
  intros H.
  specialize (H (store_engine permissive) empty_store 1 CURLOPT_HEADER 2).
  cbv in H. assert (Hne : 2 <> 0) by lia.
  specialize (H Hne). discriminate H.
Qed.

(** C1, amended: for every session, option and input, the shim issues
    exactly one engine call and returns its code as it is (it refuses
    nothing itself); the value sent is 1 precisely when the input is the
    sentinel [CURL_TRUE], and 0 for every other input, so an input that is
    neither sentinel is sent as 0 even when it is nonzero. *)
Theorem set_flag_enables_only_on_CURL_TRUE (E : Engine) (w : world E)
  (curl : CURL) (opt : CURLoption) (yesNo : Z) :
  exists v rc,
    trace (run E (curlHelperSetOptBool curl opt yesNo) w)
    = [mkExchange (mkRequest curl opt (PLong v)) rc]
    /\ result (run E (curlHelperSetOptBool curl opt yesNo) w) = rc
    /\ (v = 1 <-> yesNo = CURL_TRUE)
    /\ (v = 0 <-> yesNo <> CURL_TRUE).
Proof.
  rewrite run_curlHelperSetOptBool, run_setopt. cbn [trace result].
  eexists; eexists; split; [reflexivity |]. split; [reflexivity |].
  unfold CURL_TRUE.
  destruct (Z.eqb_spec yesNo 1) as [-> | Hne]; split; split; intros; try lia;
    try congruence.
Qed.

(** C9: for every input the value sent to the engine is 0 or 1; it is 0
    for every input other than [CURL_TRUE], and whenever the input is not
    itself one of the two canonical values the value sent differs from
    it. *)
Theorem set_flag_sends_canonical_value (E : Engine) (w : world E)
  (curl : CURL) (opt : CURLoption) (yesNo : Z) :
  exists v,
    map request (trace (run E (curlHelperSetOptBool curl opt yesNo) w))
    = [mkRequest curl opt (PLong v)]
    /\ (v = 0 \/ v = 1)
    /\ (yesNo <> CURL_TRUE -> v = 0)
    /\ (yesNo <> 0 -> yesNo <> 1 -> v <> yesNo).
Proof.
  rewrite run_curlHelperSetOptBool, run_setopt. cbn [trace map request].
  eexists; split; [reflexivity |]. unfold CURL_TRUE.
  destruct (Z.eqb_spec yesNo 1) as [-> | Hne]; repeat split; intros; lia.
Qed.

(** C6: with the sentinel [CURL_TRUE] the engine is called once, with the
    value 1 for the given option, and with [CURL_FALSE] once, with the
    value 0; when the call succeeds, a session that keeps what it accepts
    holds that value for the option. *)
Theorem set_flag_sentinels (E : Engine) (w : world E) (curl : CURL)
  (opt : CURLoption) :
  Stores E ->
  (map request (trace (run E (curlHelperSetOptBool curl opt CURL_TRUE) w))
   = [mkRequest curl opt (PLong 1)]
   /\ (result (run E (curlHelperSetOptBool curl opt CURL_TRUE) w) = CURLE_OK ->
       installed E (final (run E (curlHelperSetOptBool curl opt CURL_TRUE) w))
         curl opt = Some (PLong 1)))
  /\
  (map request (trace (run E (curlHelperSetOptBool curl opt CURL_FALSE) w))
   = [mkRequest curl opt (PLong 0)]
   /\ (result (run E (curlHelperSetOptBool curl opt CURL_FALSE) w) = CURLE_OK ->
       installed E (final (run E (curlHelperSetOptBool curl opt CURL_FALSE) w))
         curl opt = Some (PLong 0))).
Proof.
  intros HS. rewrite !run_curlHelperSetOptBool, !run_setopt.
  cbn [trace result final map request]. change (CURL_TRUE =? CURL_TRUE) with true.
  change (CURL_FALSE =? CURL_TRUE) with false. cbv iota.
  split; (split; [reflexivity |]); intros Hok; eapply HS;
    rewrite <- Hok; apply surjective_pairing.
Qed.

Lemma set_flag_sentinels_witness :
  installed (store_engine permissive)
    (final (run (store_engine permissive)
              (curlHelperSetOptBool 1 CURLOPT_HEADER CURL_TRUE) empty_store))
    1 CURLOPT_HEADER = Some (PLong 1)
  /\
  installed (store_engine permissive)
    (final (run (store_engine permissive)
              (curlHelperSetOptBool 1 CURLOPT_HEADER CURL_FALSE) empty_store))
    1 CURLOPT_HEADER = Some (PLong 0).
Proof.
  destruct (set_flag_sentinels (store_engine permissive) empty_store 1
              CURLOPT_HEADER (store_engine_Stores permissive))
    as [[_ Ht] [_ Hf]].
  split; [apply Ht | apply Hf]; reflexivity.
Defined.

(** C8: setting a flag a second time with the same input leaves every
    option of every session as the first call left it, on an engine that
    keeps what it accepts, touches nothing else, and changes nothing when
    it refuses. *)
Theorem set_flag_idempotent (E : Engine) (w : world E) (curl : CURL)
  (opt : CURLoption) (yesNo : Z) (curl' : CURL) (opt' : CURLoption) :
  Stores E -> Frame E -> RejectNoop E ->
  installed E
    (final (run E (curlHelperSetOptBool curl opt yesNo)
              (final (run E (curlHelperSetOptBool curl opt yesNo) w))))
    curl' opt'
  = installed E (final (run E (curlHelperSetOptBool curl opt yesNo) w))
      curl' opt'.
Proof.
  intros HS HF HR. rewrite !run_curlHelperSetOptBool, !run_setopt.
  cbn [final]. set (v := PLong (if yesNo =? CURL_TRUE then 1 else 0)).
  destruct (easy_setopt E w curl opt v) as [rc1 w1] eqn:H1. cbn [snd].
  destruct (CURLcode_OK_dec rc1) as [-> | Hbad].
  - (* the first call is accepted *)
    destruct (easy_setopt E w1 curl opt v) as [rc2 w2] eqn:H2. cbn [snd].
    destruct (CURLcode_OK_dec rc2) as [-> | Hbad2].
    + destruct (Z.eq_dec curl' curl) as [-> | Hc].
      * destruct (CURLoption_eqb opt' opt) eqn:Ho.
        -- apply CURLoption_eqb_eq in Ho. subst opt'.
           rewrite (HS _ _ _ _ _ H1), (HS _ _ _ _ _ H2). reflexivity.
        -- apply CURLoption_eqb_neq in Ho.
           change w2 with (snd (CURLE_OK, w2)). rewrite <- H2.
           apply HF. congruence.
      * change w2 with (snd (CURLE_OK, w2)). rewrite <- H2.
        apply HF. congruence.
    + now rewrite (HR _ _ _ _ _ _ H2 Hbad2).
  - (* the first call is refused: the second meets the same state *)
    assert (w1 = w) as -> by exact (HR _ _ _ _ _ _ H1 Hbad).
    rewrite H1. reflexivity.
Qed.

Lemma set_flag_idempotent_witness :
  installed (store_engine permissive)
    (final (run (store_engine permissive)
              (curlHelperSetOptBool 1 CURLOPT_HEADER 1)
              (final (run (store_engine permissive)
                        (curlHelperSetOptBool 1 CURLOPT_HEADER 1)
                        empty_store))))
    1 CURLOPT_HEADER
  = installed (store_engine permissive)
      (final (run (store_engine permissive)
                (curlHelperSetOptBool 1 CURLOPT_HEADER 1) empty_store))
      1 CURLOPT_HEADER.
Proof.
  apply (set_flag_idempotent (store_engine permissive) empty_store 1
           CURLOPT_HEADER 1 1 CURLOPT_HEADER).
  - apply store_engine_Stores.
  - apply store_engine_Frame.
  - apply store_engine_RejectNoop.
Defined.

(** ** set_headers: [curlHelperSetOptHeaders] *)

(** C5: after installing the list [H1] and then the list [H2] on the same
    session, the second call being accepted, the session holds exactly
    [H2]: the second call sends [H2] alone, whatever [H1] was and whether
    or not the first call was accepted. *)
Theorem set_headers_replaces (E : Engine) (w : world E) (curl : CURL)
  (H1 H2 : list string) :
  Stores E ->
  result (run E (curlHelperSetOptHeaders curl H2)
            (final (run E (curlHelperSetOptHeaders curl H1) w))) = CURLE_OK ->
  map request
    (trace (run E (curlHelperSetOptHeaders curl H2)
              (final (run E (curlHelperSetOptHeaders curl H1) w))))
  = [mkRequest curl CURLOPT_HTTPHEADER (PSlist H2)]
  /\
  installed E
    (final (run E (curlHelperSetOptHeaders curl H2)
              (final (run E (curlHelperSetOptHeaders curl H1) w))))
    curl CURLOPT_HTTPHEADER
  = Some (PSlist H2).
Proof.
  intros HS. unfold curlHelperSetOptHeaders. rewrite !run_setopt.
  cbn [result final trace map request]. intros Hok.
  split; [reflexivity |].
  eapply HS. rewrite <- Hok. apply surjective_pairing.
Qed.

Lemma set_headers_replaces_witness :
  installed (store_engine permissive)
    (final (run (store_engine permissive)
              (curlHelperSetOptHeaders 1 ["Accept: */*"%string])
              (final (run (store_engine permissive)
                        (curlHelperSetOptHeaders 1
                           ["Host: a"%string; "X-Trace: 1"%string])
                        empty_store))))
    1 CURLOPT_HTTPHEADER
  = Some (PSlist ["Accept: */*"%string]).
Proof.
  apply (set_headers_replaces (store_engine permissive) empty_store 1
           ["Host: a"%string; "X-Trace: 1"%string] ["Accept: */*"%string]).
  - apply store_engine_Stores.
  - reflexivity.
Defined.

(** ** set_read_callback: [curlHelperSetOptReadFunc] *)




(** C7, as the specification words it, fails: the shim has no null check,
    so the result is whatever the engine answers, and an engine that
    accepts a null read function makes the call succeed. *)
Lemma set_read_callback_null_can_succeed :
  result (run (store_engine permissive)
            (curlHelperSetOptReadFunc 1 7 NULL) empty_store) = CURLE_OK
  /\ ~ (forall (E : Engine) (w : world E) (curl : CURL) (userData : pointer),
          result (run E (curlHelperSetOptReadFunc curl userData NULL) w)
          <> CURLE_OK).
Proof.
  split; [reflexivity |].
  intros H. apply (H (store_engine permissive) empty_store 1 7). reflexivity.
Qed.

(** C7, amended: with a null function reference the shim still begins by
    binding the context, and hands the null reference to the engine only
    if the context was accepted; the code returned is the engine's, so it
    is non-success exactly when the engine refuses the context or, having
    accepted it, refuses the null function.  In the second case the
    context has been bound and no further call is made. *)
Theorem set_read_callback_null_forwarded (E : Engine) (w : world E)
  (curl : CURL) (userData : pointer) :
  (exists x rest,
      trace (run E (curlHelperSetOptReadFunc curl userData NULL) w) = x :: rest
      /\ x = mkExchange (mkRequest curl CURLOPT_READDATA (PObject userData))
               (fst (easy_setopt E w curl CURLOPT_READDATA (PObject userData))))
  /\ (fst (easy_setopt E w curl CURLOPT_READDATA (PObject userData))
      <> CURLE_OK ->
      run E (curlHelperSetOptReadFunc curl userData NULL) w
      = mkOutcome
          (fst (easy_setopt E w curl CURLOPT_READDATA (PObject userData)))
          (snd (easy_setopt E w curl CURLOPT_READDATA (PObject userData)))
          [mkExchange (mkRequest curl CURLOPT_READDATA (PObject userData))
             (fst (easy_setopt E w curl CURLOPT_READDATA (PObject userData)))])
  /\ (forall w1 rc w2,
         easy_setopt E w curl CURLOPT_READDATA (PObject userData)
         = (CURLE_OK, w1) ->
         easy_setopt E w1 curl CURLOPT_READFUNCTION (PFunction NULL)
         = (rc, w2) ->
         run E (curlHelperSetOptReadFunc curl userData NULL) w
         = mkOutcome rc w2
             [mkExchange (mkRequest curl CURLOPT_READDATA (PObject userData))
                CURLE_OK;
              mkExchange (mkRequest curl CURLOPT_READFUNCTION (PFunction NULL))
                rc])
  /\ (result (run E (curlHelperSetOptReadFunc curl userData NULL) w)
      <> CURLE_OK
      <->
      fst (easy_setopt E w curl CURLOPT_READDATA (PObject userData))
      <> CURLE_OK
      \/ fst (easy_setopt E
                (snd (easy_setopt E w curl CURLOPT_READDATA (PObject userData)))
                curl CURLOPT_READFUNCTION (PFunction NULL))
         <> CURLE_OK).
Proof.
  rewrite (run_curlHelperSetOptReadFunc E curl userData NULL w _ _
             eq_refl eq_refl).
  destruct (easy_setopt E w curl CURLOPT_READDATA (PObject userData))
    as [rc1 w1]. cbn [fst snd].
  destruct (easy_setopt E w1 curl CURLOPT_READFUNCTION (PFunction NULL))
    as [rc2 w2] eqn:Hfn. cbn [fst snd].
  destruct rc1 as [| n]; cbn [CURLcode_eqb result].
  - split; [eexists; eexists; split; reflexivity |].
    split; [intros Hbad; now elim Hbad |].
    split.
    + intros w1' rc w2' H1 H2. inversion H1; subst w1'.
      rewrite Hfn in H2. inversion H2; subst. reflexivity.
    + split; [intros Hbad; now right | intros [Hbad | Hbad]; easy].
  - split; [eexists; eexists; split; reflexivity |].
    split; [reflexivity |].
    split; [intros w1' rc w2' H1; discriminate H1 |].
    split; [intros _; left; discriminate | intros _; discriminate].
Qed.

(** ** set_write_callback: [curlHelperSetOptWriteFunc] *)

(** C2: the calls issued are an initial part of header-inclusion, context,
    function, in that order, starting with the first; each recorded code
    is the engine's answer, and the session ends where those calls left
    it.  A call answered with a failure is the last one, and its code is
    the shim's result; in every case the result is the code of the last
    call issued, and it is success only when all three were issued and all
    succeeded. *)
Theorem set_write_callback_order (E : Engine) (w : world E) (curl : CURL)
  (userData write_cb : pointer) :
  (exists todo,
      map request
        (trace (run E (curlHelperSetOptWriteFunc curl userData write_cb) w))
      ++ todo = write_registration curl userData write_cb)
  /\ (exists x rest,
         trace (run E (curlHelperSetOptWriteFunc curl userData write_cb) w)
         = x :: rest)
  /\ answered E w
       (trace (run E (curlHelperSetOptWriteFunc curl userData write_cb) w))
  /\ final (run E (curlHelperSetOptWriteFunc curl userData write_cb) w)
     = replay E
         (map request
            (trace (run E (curlHelperSetOptWriteFunc curl userData write_cb)
                      w))) w
  /\ (forall pre x post,
         trace (run E (curlHelperSetOptWriteFunc curl userData write_cb) w)
         = pre ++ x :: post ->
         code x <> CURLE_OK ->
         post = []
         /\ result (run E (curlHelperSetOptWriteFunc curl userData write_cb) w)
            = code x)
  /\ (exists pre x,
         trace (run E (curlHelperSetOptWriteFunc curl userData write_cb) w)
         = pre ++ [x]
         /\ result (run E (curlHelperSetOptWriteFunc curl userData write_cb) w)
            = code x)
  /\ (result (run E (curlHelperSetOptWriteFunc curl userData write_cb) w)
      = CURLE_OK ->
      map request
        (trace (run E (curlHelperSetOptWriteFunc curl userData write_cb) w))
      = write_registration curl userData write_cb
      /\ forall x,
          In x (trace (run E (curlHelperSetOptWriteFunc curl userData write_cb)
                         w)) ->
          code x = CURLE_OK).
Proof.
  split; [| split; [| split; [apply run_answered
                             | split; [apply run_replay |]]]];
    rewrite (run_curlHelperSetOptWriteFunc E curl userData write_cb w _ _ _
               eq_refl eq_refl eq_refl);
    destruct (easy_setopt E w curl CURLOPT_HEADER (PLong 1)) as [rc1 w1];
    cbn [fst snd];
    destruct (easy_setopt E w1 curl CURLOPT_WRITEDATA (PObject userData))
      as [rc2 w2]; cbn [fst snd];
    destruct (easy_setopt E w2 curl CURLOPT_WRITEFUNCTION (PFunction write_cb))
      as [rc3 w3]; cbn [fst snd];
    (destruct rc1 as [| n1]; [destruct rc2 as [| n2] |]);
    cbn [CURLcode_eqb trace result map request]; unfold write_registration.
  (* order *)
  - now exists [].
  - now eexists [_].
  - now eexists [_; _].
  (* at least the first step *)
  - eauto.
  - eauto.
  - eauto.
  (* failure stops, last code returned, success means all three *)
  - split; [| split].
    + intros pre x post Htr Hbad. split_trace Htr pre; cbn [code] in Hbad;
        try (now elim Hbad); try (split; reflexivity).
      all: match goal with H : [] = _ ++ _ :: _ |- _ =>
             destruct pre; discriminate H end.
    + eexists [_; _], _. split; reflexivity.
    + intros ->. split; [reflexivity |].
      intros x [<- | [<- | [<- | []]]]; reflexivity.
  - split; [| split].
    + intros pre x post Htr Hbad. split_trace Htr pre; cbn [code] in Hbad;
        try (now elim Hbad); try (split; reflexivity).
      all: match goal with H : [] = _ ++ _ :: _ |- _ =>
             destruct pre; discriminate H end.
    + eexists [_], _. split; reflexivity.
    + discriminate.
  - split; [| split].
    + intros pre x post Htr Hbad. split_trace Htr pre; cbn [code] in Hbad;
        try (now elim Hbad); try (split; reflexivity).
      all: match goal with H : [] = _ ++ _ :: _ |- _ =>
             destruct pre; discriminate H end.
    + eexists [], _. split; reflexivity.
    + discriminate.
Qed.

(** C4: whenever the shim returns success, the session holds 1 for the
    header-inclusion option, whatever context and callback were given: the
    first call installed it and the two later calls are for other
    options. *)
Theorem set_write_callback_enables_header (E : Engine) (w : world E)
  (curl : CURL) (userData write_cb : pointer) :
  Stores E -> Frame E ->
  result (run E (curlHelperSetOptWriteFunc curl userData write_cb) w)
  = CURLE_OK ->
  installed E
    (final (run E (curlHelperSetOptWriteFunc curl userData write_cb) w))
    curl CURLOPT_HEADER
  = Some (PLong 1).
Proof.
  intros HS HF.
  rewrite (run_curlHelperSetOptWriteFunc E curl userData write_cb w _ _ _
             eq_refl eq_refl eq_refl).
  destruct (easy_setopt E w curl CURLOPT_HEADER (PLong 1)) as [rc1 w1] eqn:H1.
  cbn [fst snd].
  pose proof (HF w1 curl CURLOPT_WRITEDATA (PObject userData)
                curl CURLOPT_HEADER) as F2.
  destruct (easy_setopt E w1 curl CURLOPT_WRITEDATA (PObject userData))
    as [rc2 w2]. cbn [fst snd] in *.
  pose proof (HF w2 curl CURLOPT_WRITEFUNCTION (PFunction write_cb)
                curl CURLOPT_HEADER) as F3.
  destruct (easy_setopt E w2 curl CURLOPT_WRITEFUNCTION (PFunction write_cb))
    as [rc3 w3]. cbn [fst snd] in *.
  destruct rc1 as [| n1]; cbn [CURLcode_eqb];
    [destruct rc2 as [| n2]; cbn [CURLcode_eqb] |];
    cbn [result final]; intros Hok; try discriminate Hok.
  rewrite F3 by congruence. rewrite F2 by congruence.
  exact (HS _ _ _ _ _ H1).
Qed.

Lemma set_write_callback_enables_header_witness :
  installed (store_engine permissive)
    (final (run (store_engine permissive) (curlHelperSetOptWriteFunc 1 7 9)
              empty_store))
    1 CURLOPT_HEADER
  = Some (PLong 1).
Proof.
  apply (set_write_callback_enables_header (store_engine permissive)
           empty_store 1 7 9).
  - apply store_engine_Stores.
  - apply store_engine_Frame.
  - reflexivity.
Defined.

(** C10: when the engine refuses the first step, that step is the only
    call issued and its code is the result, so on an engine whose calls
    leave other options alone the write context, the write function and
    every option other than header-inclusion are as they were before. *)
Theorem set_write_callback_first_step_fails (E : Engine) (w : world E)
  (curl : CURL) (userData write_cb : pointer) :
  Frame E ->
  fst (easy_setopt E w curl CURLOPT_HEADER (PLong 1)) <> CURLE_OK ->
  result (run E (curlHelperSetOptWriteFunc curl userData write_cb) w)
  = fst (easy_setopt E w curl CURLOPT_HEADER (PLong 1))
  /\ map request
       (trace (run E (curlHelperSetOptWriteFunc curl userData write_cb) w))
     = [mkRequest curl CURLOPT_HEADER (PLong 1)]
  /\ installed E
       (final (run E (curlHelperSetOptWriteFunc curl userData write_cb) w))
       curl CURLOPT_WRITEDATA = installed E w curl CURLOPT_WRITEDATA
  /\ installed E
       (final (run E (curlHelperSetOptWriteFunc curl userData write_cb) w))
       curl CURLOPT_WRITEFUNCTION = installed E w curl CURLOPT_WRITEFUNCTION
  /\ (forall curl' opt',
         (curl', opt') <> (curl, CURLOPT_HEADER) ->
         installed E
           (final (run E (curlHelperSetOptWriteFunc curl userData write_cb) w))
           curl' opt' = installed E w curl' opt').
Proof.
  intros HF Hbad.
  rewrite (run_curlHelperSetOptWriteFunc E curl userData write_cb w _ _ _
             eq_refl eq_refl eq_refl).
  destruct (CURLcode_eqb
              (fst (easy_setopt E w curl CURLOPT_HEADER (PLong 1))) CURLE_OK)
    eqn:Hc.
  - apply CURLcode_eqb_OK in Hc. contradiction.
  - cbn [result final trace map request].
    split; [reflexivity |]. split; [reflexivity |].
    split; [apply HF; congruence |]. split; [apply HF; congruence |].
    intros curl' opt' Hne. now apply HF.
Qed.

Lemma set_write_callback_first_step_fails_witness :
  result (run (store_engine (refuse_option CURLOPT_HEADER))
            (curlHelperSetOptWriteFunc 1 7 9)
            (store_set empty_store 1 CURLOPT_WRITEDATA (PObject 5)))
  = CURLE_FAILED 48
  /\ installed (store_engine (refuse_option CURLOPT_HEADER))
       (final (run (store_engine (refuse_option CURLOPT_HEADER))
                 (curlHelperSetOptWriteFunc 1 7 9)
                 (store_set empty_store 1 CURLOPT_WRITEDATA (PObject 5))))
       1 CURLOPT_WRITEDATA = Some (PObject 5)
  /\ installed (store_engine (refuse_option CURLOPT_HEADER))
       (final (run (store_engine (refuse_option CURLOPT_HEADER))
                 (curlHelperSetOptWriteFunc 1 7 9)
                 (store_set empty_store 1 CURLOPT_WRITEDATA (PObject 5))))
       1 CURLOPT_WRITEFUNCTION = None.
Proof.
  destruct (set_write_callback_first_step_fails
              (store_engine (refuse_option CURLOPT_HEADER))
              (store_set empty_store 1 CURLOPT_WRITEDATA (PObject 5))
              1 7 9 (store_engine_Frame _))
    as (Hres & _ & Hctx & Hfun & _).
  - discriminate.
  - split; [exact Hres |]. split; [exact Hctx | exact Hfun].
Defined.

(** ** All six operations at once *)

Lemma chain_stops (tr : list Exchange) (res : CURLcode) :
  chain tr res ->
  forall pre x post,
    tr = pre ++ x :: post -> code x <> CURLE_OK ->
    post = [] /\ res = code x.
Proof.
  induction tr as [| y rest IH]; intros Hc pre x post Htr Hbad.
  - destruct pre; discriminate Htr.
  - destruct rest as [| z rest'].
    + destruct pre as [| p pre]; cbn in Htr.
      * inversion Htr; subst. cbn in Hc. now split.
      * inversion Htr. destruct pre; discriminate.
    + destruct Hc as [Hy Hc]. destruct pre as [| p pre]; cbn in Htr.
      * inversion Htr; subst. contradiction.
      * inversion Htr; subst. exact (IH Hc pre x post H1 Hbad).
Qed.

Lemma chain_last (tr : list Exchange) (res : CURLcode) :
  chain tr res -> exists pre x, tr = pre ++ [x] /\ res = code x.
Proof.
  induction tr as [| y rest IH]; intros Hc; [destruct Hc |].
  destruct rest as [| z rest'].
  - exists [], y. cbn in Hc. now split.
  - destruct Hc as [_ Hc]. destruct (IH Hc) as (pre & x & Hpre & Hres).
    exists (y :: pre), x. cbn. now rewrite Hpre.
Qed.

Lemma chain_success (tr : list Exchange) :
  chain tr CURLE_OK -> forall x, In x tr -> code x = CURLE_OK.
Proof.
  induction tr as [| y rest IH]; intros Hc x Hin; [destruct Hc |].
  destruct rest as [| z rest'].
  - destruct Hin as [<- | []]. exact Hc.
  - destruct Hc as [Hy Hc]. destruct Hin as [<- | Hin]; [exact Hy |].
    now apply IH.
Qed.

Lemma perform_single (op : Operation) :
  List.length (options_of op) = 1%nat ->
  exists opt v,
    options_of op = [opt]
    /\ perform op = curl_easy_setopt (session_of op) opt v.
Proof.
  destruct op; cbn; intros H; try discriminate H;
    eexists; eexists; split; reflexivity.
Qed.

(** The possible shapes of a run of the read registration ... *)
Lemma read_shapes (E : Engine) (w : world E) (curl : CURL)
  (userData read_cb : pointer) :
  (exists n w1,
      easy_setopt E w curl CURLOPT_READDATA (PObject userData)
      = (CURLE_FAILED n, w1)
      /\ run E (curlHelperSetOptReadFunc curl userData read_cb) w
         = mkOutcome (CURLE_FAILED n) w1
             [mkExchange (mkRequest curl CURLOPT_READDATA (PObject userData))
                (CURLE_FAILED n)])
  \/ (exists w1 rc w2,
         easy_setopt E w curl CURLOPT_READDATA (PObject userData)
         = (CURLE_OK, w1)
         /\ easy_setopt E w1 curl CURLOPT_READFUNCTION (PFunction read_cb)
            = (rc, w2)
         /\ run E (curlHelperSetOptReadFunc curl userData read_cb) w
            = mkOutcome rc w2
                [mkExchange
                   (mkRequest curl CURLOPT_READDATA (PObject userData))
                   CURLE_OK;
                 mkExchange
                   (mkRequest curl CURLOPT_READFUNCTION (PFunction read_cb))
                   rc]).
Proof.
  rewrite (run_curlHelperSetOptReadFunc E curl userData read_cb w _ _
             eq_refl eq_refl).
  destruct (easy_setopt E w curl CURLOPT_READDATA (PObject userData))
    as [[| n] w1]; cbn [fst snd CURLcode_eqb].
  - right. exists w1.
    destruct (easy_setopt E w1 curl CURLOPT_READFUNCTION (PFunction read_cb))
      as [rc w2]. exists rc, w2. repeat split.
  - left. exists n, w1. split; reflexivity.
Qed.

(** ... and of the write registration. *)
Lemma write_shapes (E : Engine) (w : world E) (curl : CURL)
  (userData write_cb : pointer) :
  (exists n w1,
      easy_setopt E w curl CURLOPT_HEADER (PLong 1) = (CURLE_FAILED n, w1)
      /\ run E (curlHelperSetOptWriteFunc curl userData write_cb) w
         = mkOutcome (CURLE_FAILED n) w1
             [mkExchange (mkRequest curl CURLOPT_HEADER (PLong 1))
                (CURLE_FAILED n)])
  \/ (exists w1 n w2,
         easy_setopt E w curl CURLOPT_HEADER (PLong 1) = (CURLE_OK, w1)
         /\ easy_setopt E w1 curl CURLOPT_WRITEDATA (PObject userData)
            = (CURLE_FAILED n, w2)
         /\ run E (curlHelperSetOptWriteFunc curl userData write_cb) w
            = mkOutcome (CURLE_FAILED n) w2
                [mkExchange (mkRequest curl CURLOPT_HEADER (PLong 1)) CURLE_OK;
                 mkExchange
                   (mkRequest curl CURLOPT_WRITEDATA (PObject userData))
                   (CURLE_FAILED n)])
  \/ (exists w1 w2 rc w3,
         easy_setopt E w curl CURLOPT_HEADER (PLong 1) = (CURLE_OK, w1)
         /\ easy_setopt E w1 curl CURLOPT_WRITEDATA (PObject userData)
            = (CURLE_OK, w2)
         /\ easy_setopt E w2 curl CURLOPT_WRITEFUNCTION (PFunction write_cb)
            = (rc, w3)
         /\ run E (curlHelperSetOptWriteFunc curl userData write_cb) w
            = mkOutcome rc w3
                [mkExchange (mkRequest curl CURLOPT_HEADER (PLong 1)) CURLE_OK;
                 mkExchange
                   (mkRequest curl CURLOPT_WRITEDATA (PObject userData))
                   CURLE_OK;
                 mkExchange
                   (mkRequest curl CURLOPT_WRITEFUNCTION (PFunction write_cb))
                   rc]).
Proof.
  rewrite (run_curlHelperSetOptWriteFunc E curl userData write_cb w _ _ _
             eq_refl eq_refl eq_refl).
  destruct (easy_setopt E w curl CURLOPT_HEADER (PLong 1))
    as [[| n1] w1]; cbn [fst snd CURLcode_eqb].
  - right.
    destruct (easy_setopt E w1 curl CURLOPT_WRITEDATA (PObject userData))
      as [[| n2] w2] eqn:H2; cbn [fst snd CURLcode_eqb].
    + right. exists w1, w2.
      destruct (easy_setopt E w2 curl CURLOPT_WRITEFUNCTION
                  (PFunction write_cb)) as [rc w3].
      exists rc, w3. split; [reflexivity |]. split; [exact H2 |].
      split; reflexivity.
    + left. exists w1, n2, w2. split; [reflexivity |]. split; [exact H2 |].
      reflexivity.
  - left. exists n1, w1. split; reflexivity.
Qed.

Lemma perform_chain (E : Engine) (w : world E) (op : Operation) :
  chain (trace (run E (perform op) w)) (result (run E (perform op) w)).
Proof.
  destruct op as [c o y | c h | c o d | c o d | c u f | c u f]; cbn [perform].
  1-4: (try rewrite run_curlHelperSetOptBool;
        try unfold curlHelperSetOptHeaders;
        try unfold curlHelperSetOptInt;
        try unfold curlHelperSetOptString;
        rewrite run_setopt; reflexivity).
  - destruct (read_shapes E w c u f)
      as [(n & w1 & _ & ->) | (w1 & rc & w2 & _ & _ & ->)]; cbn; auto.
  - destruct (write_shapes E w c u f)
      as [(n & w1 & _ & ->)
         | [(w1 & n & w2 & _ & _ & ->)
           | (w1 & w2 & rc & w3 & _ & _ & _ & ->)]]; cbn; auto.
Qed.

Lemma requests_of_options (op : Operation) :
  map rq_option (requests_of op) = options_of op.
Proof. destruct op; reflexivity. Qed.

Lemma requests_of_session (op : Operation) (rq : Request) :
  In rq (requests_of op) -> rq_curl rq = session_of op.
Proof.
  destruct op; cbn; intros H;
    repeat (destruct H as [<- | H]; [reflexivity |]); destruct H.
Qed.

Lemma perform_requests (E : Engine) (w : world E) (op : Operation) :
  exists todo,
    map request (trace (run E (perform op) w)) ++ todo = requests_of op.
Proof.
  destruct op as [c o y | c h | c o d | c o d | c u f | c u f];
    cbn [perform requests_of].
  1-4: (try rewrite run_curlHelperSetOptBool;
        try unfold curlHelperSetOptHeaders;
        try unfold curlHelperSetOptInt;
        try unfold curlHelperSetOptString;
        rewrite run_setopt; cbn [trace map request]; now exists []).
  - destruct (read_shapes E w c u f)
      as [(n & w1 & _ & ->) | (w1 & rc & w2 & _ & _ & ->)];
      cbn [trace map request]; [now eexists [_] | now exists []].
  - destruct (write_shapes E w c u f)
      as [(n & w1 & _ & ->)
         | [(w1 & n & w2 & _ & _ & ->)
           | (w1 & w2 & rc & w3 & _ & _ & _ & ->)]];
      cbn [trace map request];
      [now eexists [_; _] | now eexists [_] | now exists []].
Qed.

Lemma perform_requests_in (E : Engine) (w : world E) (op : Operation)
  (x : Exchange) :
  In x (trace (run E (perform op) w)) -> In (request x) (requests_of op).
Proof.
  intros Hx. destruct (perform_requests E w op) as [todo <-].
  apply in_or_app. left. now apply in_map.
Qed.

Lemma perform_success_requests (E : Engine) (w : world E) (op : Operation) :
  result (run E (perform op) w) = CURLE_OK ->
  map request (trace (run E (perform op) w)) = requests_of op.
Proof.
  destruct op as [c o y | c h | c o d | c o d | c u f | c u f];
    cbn [perform requests_of].
  1-4: (try rewrite run_curlHelperSetOptBool;
        try unfold curlHelperSetOptHeaders;
        try unfold curlHelperSetOptInt;
        try unfold curlHelperSetOptString;
        rewrite run_setopt; reflexivity).
  - destruct (read_shapes E w c u f)
      as [(n & w1 & _ & ->) | (w1 & rc & w2 & _ & _ & ->)];
      cbn [result trace map request]; intros Hok;
      [discriminate Hok | reflexivity].
  - destruct (write_shapes E w c u f)
      as [(n & w1 & _ & ->)
         | [(w1 & n & w2 & _ & _ & ->)
           | (w1 & w2 & rc & w3 & _ & _ & _ & ->)]];
      cbn [result trace map request]; intros Hok;
      try discriminate Hok; reflexivity.
Qed.

(** X1: whichever of the six operations is called, it issues at least one
    engine call, and the calls issued are an initial part of the calls of
    its body, in their order and with their values (so all are on the
    handle it was given); a call the engine answers with a failure is the
    last one and its code is returned, the result is always the code of the
    last call, and success means every call of the body was issued and
    succeeded. *)
Theorem operation_calls_in_order (E : Engine) (w : world E) (op : Operation) :
  (exists todo,
      map request (trace (run E (perform op) w)) ++ todo = requests_of op)
  /\ (exists x rest, trace (run E (perform op) w) = x :: rest)
  /\ (forall x, In x (trace (run E (perform op) w)) ->
                rq_curl (request x) = session_of op)
  /\ (forall pre x post,
         trace (run E (perform op) w) = pre ++ x :: post ->
         code x <> CURLE_OK ->
         post = [] /\ result (run E (perform op) w) = code x)
  /\ (exists pre x,
         trace (run E (perform op) w) = pre ++ [x]
         /\ result (run E (perform op) w) = code x)
  /\ (result (run E (perform op) w) = CURLE_OK ->
      map request (trace (run E (perform op) w)) = requests_of op
      /\ forall x, In x (trace (run E (perform op) w)) -> code x = CURLE_OK).
Proof.
  pose proof (perform_chain E w op) as Hc.
  split; [apply perform_requests |]. split.
  { destruct (trace (run E (perform op) w)) as [| x rest]; [destruct Hc |].
    eauto. }
  split.
  { intros x Hx. apply requests_of_session.
    now apply (perform_requests_in E w). }
  split; [exact (chain_stops _ _ Hc) |].
  split; [exact (chain_last _ _ Hc) |].
  intros Hok. split; [now apply perform_success_requests |].
  rewrite Hok in Hc. exact (chain_success _ Hc).
Qed.

(** ** What a sequence of operations leaves alone *)

Lemma replay_frame (E : Engine) (rqs : list Request) (w : world E)
  (curl' : CURL) (opt' : CURLoption) :
  Frame E ->
  (forall rq, In rq rqs -> (curl', opt') <> (rq_curl rq, rq_option rq)) ->
  installed E (replay E rqs w) curl' opt' = installed E w curl' opt'.
Proof.
  intros HF. revert w. induction rqs as [| rq rest IH]; intros w Hout.
  - reflexivity.
  - cbn [replay]. rewrite IH by (intros r Hr; apply Hout; now right).
    unfold serve. apply HF. apply Hout. now left.
Qed.

Lemma perform_frame (E : Engine) (w : world E) (op : Operation)
  (curl' : CURL) (opt' : CURLoption) :
  Frame E ->
  session_of op <> curl' \/ ~ In opt' (options_of op) ->
  installed E (final (run E (perform op) w)) curl' opt'
  = installed E w curl' opt'.
Proof.
  intros HF Hout. rewrite run_replay. apply replay_frame; [exact HF |].
  intros rq Hin Heq. apply in_map_iff in Hin. destruct Hin as (x & <- & Hx).
  apply (perform_requests_in E w) in Hx.
  inversion Heq as [[Hc Ho]]. destruct Hout as [Hs | Ho'].
  - apply Hs. rewrite Hc. symmetry. exact (requests_of_session _ _ Hx).
  - apply Ho'. rewrite <- requests_of_options, Ho. now apply in_map.
Qed.

(** X2: on an engine whose calls leave other options alone, any sequence
    of operations leaves an option of a session as it was, provided no
    operation of the sequence both is called on that session and names
    that option in its body.  In particular other sessions are never
    touched, and registering a read callback never changes the write
    registration or header-inclusion. *)
Theorem operations_leave_other_options (E : Engine) (ops : list Operation)
  (w : world E) (curl' : CURL) (opt' : CURLoption) :
  Frame E ->
  (forall op, In op ops ->
              session_of op <> curl' \/ ~ In opt' (options_of op)) ->
  installed E (perform_all E ops w) curl' opt' = installed E w curl' opt'.
Proof.
  intros HF. revert w. induction ops as [| op rest IH]; intros w Hout.
  - reflexivity.
  - cbn [perform_all]. rewrite IH by (intros o Ho; apply Hout; now right).
    apply perform_frame; [exact HF |]. apply Hout. now left.
Qed.

Lemma operations_leave_other_options_witness :
  installed (store_engine permissive)
    (perform_all (store_engine permissive)
       [SetOptReadFunc 1 7 9; SetOptBool 2 CURLOPT_HEADER 1;
        SetOptHeaders 1 ["Host: a"%string]]
       (store_set empty_store 1 CURLOPT_HEADER (PLong 0)))
    1 CURLOPT_HEADER
  = Some (PLong 0).
Proof.
  apply (operations_leave_other_options (store_engine permissive)
           [SetOptReadFunc 1 7 9; SetOptBool 2 CURLOPT_HEADER 1;
            SetOptHeaders 1 ["Host: a"%string]]
           (store_set empty_store 1 CURLOPT_HEADER (PLong 0))
           1 CURLOPT_HEADER).
  - apply store_engine_Frame.
  - intros op [<- | [<- | [<- | []]]]; cbn.
    + right. intros [H | [H | []]]; discriminate H.
    + left. discriminate.
    + right. intros [H | []]; discriminate H.
Defined.

(** X3: on an engine that changes nothing when it refuses, an operation
    whose first engine call is refused makes no further call, returns that
    refusal, and leaves the engine state exactly as it found it.  This
    holds for all six operations. *)
Theorem operation_refused_at_first_call (E : Engine) (w : world E)
  (op : Operation) (x : Exchange) (rest : list Exchange) :
  RejectNoop E ->
  trace (run E (perform op) w) = x :: rest ->
  code x <> CURLE_OK ->
  rest = []
  /\ result (run E (perform op) w) = code x
  /\ final (run E (perform op) w) = w.
Proof.
  intros HR Htr Hbad.
  destruct (chain_stops _ _ (perform_chain E w op) [] x rest Htr Hbad)
    as [-> Hres].
  split; [reflexivity |]. split; [exact Hres |].
  pose proof (run_answered E (perform op) w) as Ha.
  rewrite run_replay, Htr in *. cbn [map replay] in *. destruct Ha as [Hx _].
  unfold serve in *.
  destruct (easy_setopt E w (rq_curl (request x)) (rq_option (request x))
              (rq_param (request x))) as [rc w'] eqn:Hs.
  cbn [fst snd] in *. subst rc. exact (HR _ _ _ _ _ _ Hs Hbad).
Qed.

Lemma operation_refused_at_first_call_witness :
  result (run (store_engine (refuse_option CURLOPT_READDATA))
            (perform (SetOptReadFunc 1 7 9)) empty_store)
  = CURLE_FAILED 48
  /\ final (run (store_engine (refuse_option CURLOPT_READDATA))
              (perform (SetOptReadFunc 1 7 9)) empty_store)
     = empty_store.
Proof.
  destruct (operation_refused_at_first_call
              (store_engine (refuse_option CURLOPT_READDATA)) empty_store
              (SetOptReadFunc 1 7 9)
              (mkExchange (mkRequest 1 CURLOPT_READDATA (PObject 7))
                 (CURLE_FAILED 48))
              [] (store_engine_RejectNoop _) eq_refl)
    as (_ & Hres & Hfin).
  - discriminate.
  - split; [exact Hres | exact Hfin].
Defined.

(** ** Read and write registration, outcome by outcome *)

(** X4: when registering the read callback returns success, the session
    holds both halves: the context given and the function given. *)
Theorem set_read_callback_success_binds_both (E : Engine) (w : world E)
  (curl : CURL) (userData read_cb : pointer) :
  Stores E -> Frame E ->
  result (run E (curlHelperSetOptReadFunc curl userData read_cb) w)
  = CURLE_OK ->
  map request
    (trace (run E (curlHelperSetOptReadFunc curl userData read_cb) w))
  = read_registration curl userData read_cb
  /\ installed E
       (final (run E (curlHelperSetOptReadFunc curl userData read_cb) w))
       curl CURLOPT_READDATA = Some (PObject userData)
  /\ installed E
       (final (run E (curlHelperSetOptReadFunc curl userData read_cb) w))
       curl CURLOPT_READFUNCTION = Some (PFunction read_cb).
Proof.
  intros HS HF.
  destruct (read_shapes E w curl userData read_cb)
    as [(n & w1 & _ & ->) | (w1 & rc & w2 & H1 & H2 & ->)];
    cbn [result final trace map request]; intros Hok;
    [discriminate Hok | subst rc].
  split; [reflexivity |]. split.
  - change w2 with (snd (CURLE_OK, w2)). rewrite <- H2.
    rewrite HF by congruence. exact (HS _ _ _ _ _ H1).
  - exact (HS _ _ _ _ _ H2).
Qed.

Lemma set_read_callback_success_binds_both_witness :
  installed (store_engine permissive)
    (final (run (store_engine permissive) (curlHelperSetOptReadFunc 1 7 9)
              empty_store))
    1 CURLOPT_READDATA = Some (PObject 7)
  /\ installed (store_engine permissive)
       (final (run (store_engine permissive) (curlHelperSetOptReadFunc 1 7 9)
                 empty_store))
       1 CURLOPT_READFUNCTION = Some (PFunction 9).
Proof.
  destruct (set_read_callback_success_binds_both (store_engine permissive)
              empty_store 1 7 9 (store_engine_Stores _)
              (store_engine_Frame _) eq_refl)
    as (_ & Hctx & Hfun).
  split; [exact Hctx | exact Hfun].
Defined.

(** X5: when registering the write callback returns success, the session
    holds the context given and the function given. *)
Theorem set_write_callback_success_binds_both (E : Engine) (w : world E)
  (curl : CURL) (userData write_cb : pointer) :
  Stores E -> Frame E ->
  result (run E (curlHelperSetOptWriteFunc curl userData write_cb) w)
  = CURLE_OK ->
  installed E
    (final (run E (curlHelperSetOptWriteFunc curl userData write_cb) w))
    curl CURLOPT_WRITEDATA = Some (PObject userData)
  /\ installed E
       (final (run E (curlHelperSetOptWriteFunc curl userData write_cb) w))
       curl CURLOPT_WRITEFUNCTION = Some (PFunction write_cb).
Proof.
  intros HS HF.
  destruct (write_shapes E w curl userData write_cb)
    as [(n & w1 & _ & ->)
       | [(w1 & n & w2 & _ & _ & ->)
         | (w1 & w2 & rc & w3 & H1 & H2 & H3 & ->)]];
    cbn [result final]; intros Hok; try discriminate Hok. subst rc.
  split.
  - change w3 with (snd (CURLE_OK, w3)). rewrite <- H3.
    rewrite HF by congruence. exact (HS _ _ _ _ _ H2).
  - exact (HS _ _ _ _ _ H3).
Qed.

Lemma set_write_callback_success_binds_both_witness :
  installed (store_engine permissive)
    (final (run (store_engine permissive) (curlHelperSetOptWriteFunc 1 7 9)
              empty_store))
    1 CURLOPT_WRITEDATA = Some (PObject 7)
  /\ installed (store_engine permissive)
       (final (run (store_engine permissive) (curlHelperSetOptWriteFunc 1 7 9)
                 empty_store))
       1 CURLOPT_WRITEFUNCTION = Some (PFunction 9).
Proof.
  apply (set_write_callback_success_binds_both (store_engine permissive)
           empty_store 1 7 9).
  - apply store_engine_Stores.
  - apply store_engine_Frame.
  - reflexivity.
Defined.

(** X6: when header-inclusion is accepted and the write context is then
    refused, the refusal is returned and the function is never sent, but
    header-inclusion is not undone: the session is left with
    header-inclusion at 1 and with the write context and write function it
    had before. *)
Theorem set_write_callback_context_refused (E : Engine) (w w1 w2 : world E)
  (curl : CURL) (userData write_cb : pointer) (rc : CURLcode) :
  Stores E -> Frame E -> RejectNoop E ->
  easy_setopt E w curl CURLOPT_HEADER (PLong 1) = (CURLE_OK, w1) ->
  easy_setopt E w1 curl CURLOPT_WRITEDATA (PObject userData) = (rc, w2) ->
  rc <> CURLE_OK ->
  result (run E (curlHelperSetOptWriteFunc curl userData write_cb) w) = rc
  /\ map request
       (trace (run E (curlHelperSetOptWriteFunc curl userData write_cb) w))
     = [mkRequest curl CURLOPT_HEADER (PLong 1);
        mkRequest curl CURLOPT_WRITEDATA (PObject userData)]
  /\ installed E
       (final (run E (curlHelperSetOptWriteFunc curl userData write_cb) w))
       curl CURLOPT_HEADER = Some (PLong 1)
  /\ installed E
       (final (run E (curlHelperSetOptWriteFunc curl userData write_cb) w))
       curl CURLOPT_WRITEDATA = installed E w curl CURLOPT_WRITEDATA
  /\ installed E
       (final (run E (curlHelperSetOptWriteFunc curl userData write_cb) w))
       curl CURLOPT_WRITEFUNCTION = installed E w curl CURLOPT_WRITEFUNCTION.
Proof.
  intros HS HF HR H1 H2 Hbad.
  rewrite (run_curlHelperSetOptWriteFunc E curl userData write_cb w _ _ _
             eq_refl eq_refl eq_refl).
  rewrite H1. cbn [fst snd CURLcode_eqb]. rewrite H2. cbn [fst snd].
  destruct rc as [| n]; [now elim Hbad |]. cbn [CURLcode_eqb].
  cbn [result final trace map request].
  assert (w2 = w1) as -> by exact (HR _ _ _ _ _ _ H2 Hbad).
  assert (Hothers : forall opt', opt' <> CURLOPT_HEADER ->
            installed E w1 curl opt' = installed E w curl opt').
  { intros opt' Hne. change w1 with (snd (CURLE_OK, w1)). rewrite <- H1.
    apply HF. congruence. }
  split; [reflexivity |]. split; [reflexivity |].
  split; [exact (HS _ _ _ _ _ H1) |].
  split; apply Hothers; discriminate.
Qed.

Lemma set_write_callback_context_refused_witness :
  result (run (store_engine (refuse_option CURLOPT_WRITEDATA))
            (curlHelperSetOptWriteFunc 1 7 9) empty_store)
  = CURLE_FAILED 48
  /\ installed (store_engine (refuse_option CURLOPT_WRITEDATA))
       (final (run (store_engine (refuse_option CURLOPT_WRITEDATA))
                 (curlHelperSetOptWriteFunc 1 7 9) empty_store))
       1 CURLOPT_HEADER = Some (PLong 1)
  /\ installed (store_engine (refuse_option CURLOPT_WRITEDATA))
       (final (run (store_engine (refuse_option CURLOPT_WRITEDATA))
                 (curlHelperSetOptWriteFunc 1 7 9) empty_store))
       1 CURLOPT_WRITEDATA = None.
Proof.
  destruct (set_write_callback_context_refused
              (store_engine (refuse_option CURLOPT_WRITEDATA))
              empty_store
              (store_set empty_store 1 CURLOPT_HEADER (PLong 1))
              (store_set empty_store 1 CURLOPT_HEADER (PLong 1))
              1 7 9 (CURLE_FAILED 48)
              (store_engine_Stores _) (store_engine_Frame _)
              (store_engine_RejectNoop _) eq_refl eq_refl)
    as (Hres & _ & Hhdr & Hctx & _).
  - discriminate.
  - split; [exact Hres |]. split; [exact Hhdr | exact Hctx].
Defined.

(** X7: when header-inclusion and the write context are accepted and the
    function is then refused, the refusal is returned and nothing is
    undone: the session is left with header-inclusion at 1, with the new
    context, and with the write function it had before. *)
Theorem set_write_callback_function_refused (E : Engine)
  (w w1 w2 w3 : world E) (curl : CURL) (userData write_cb : pointer)
  (rc : CURLcode) :
  Stores E -> Frame E -> RejectNoop E ->
  easy_setopt E w curl CURLOPT_HEADER (PLong 1) = (CURLE_OK, w1) ->
  easy_setopt E w1 curl CURLOPT_WRITEDATA (PObject userData)
  = (CURLE_OK, w2) ->
  easy_setopt E w2 curl CURLOPT_WRITEFUNCTION (PFunction write_cb)
  = (rc, w3) ->
  rc <> CURLE_OK ->
  result (run E (curlHelperSetOptWriteFunc curl userData write_cb) w) = rc
  /\ installed E
       (final (run E (curlHelperSetOptWriteFunc curl userData write_cb) w))
       curl CURLOPT_HEADER = Some (PLong 1)
  /\ installed E
       (final (run E (curlHelperSetOptWriteFunc curl userData write_cb) w))
       curl CURLOPT_WRITEDATA = Some (PObject userData)
  /\ installed E
       (final (run E (curlHelperSetOptWriteFunc curl userData write_cb) w))
       curl CURLOPT_WRITEFUNCTION = installed E w curl CURLOPT_WRITEFUNCTION.
Proof.
  intros HS HF HR H1 H2 H3 Hbad.
  rewrite (run_curlHelperSetOptWriteFunc E curl userData write_cb w _ _ _
             eq_refl eq_refl eq_refl).
  rewrite H1. cbn [fst snd CURLcode_eqb]. rewrite H2.
  cbn [fst snd CURLcode_eqb]. rewrite H3. cbn [fst snd result final].
  assert (w3 = w2) as -> by exact (HR _ _ _ _ _ _ H3 Hbad).
  assert (F1 : forall opt', opt' <> CURLOPT_HEADER ->
            installed E w1 curl opt' = installed E w curl opt').
  { intros opt' Hne. change w1 with (snd (CURLE_OK, w1)). rewrite <- H1.
    apply HF. congruence. }
  assert (F2 : forall opt', opt' <> CURLOPT_WRITEDATA ->
            installed E w2 curl opt' = installed E w1 curl opt').
  { intros opt' Hne. change w2 with (snd (CURLE_OK, w2)). rewrite <- H2.
    apply HF. congruence. }
  split; [reflexivity |]. split.
  - rewrite F2 by discriminate. exact (HS _ _ _ _ _ H1).
  - split; [exact (HS _ _ _ _ _ H2) |].
    rewrite F2, F1 by discriminate. reflexivity.
Qed.

Lemma set_write_callback_function_refused_witness :
  result (run (store_engine refuse_null_function)
            (curlHelperSetOptWriteFunc 1 7 NULL) empty_store)
  = CURLE_FAILED 43
  /\ installed (store_engine refuse_null_function)
       (final (run (store_engine refuse_null_function)
                 (curlHelperSetOptWriteFunc 1 7 NULL) empty_store))
       1 CURLOPT_HEADER = Some (PLong 1)
  /\ installed (store_engine refuse_null_function)
       (final (run (store_engine refuse_null_function)
                 (curlHelperSetOptWriteFunc 1 7 NULL) empty_store))
       1 CURLOPT_WRITEDATA = Some (PObject 7).
Proof.
  destruct (set_write_callback_function_refused
              (store_engine refuse_null_function)
              empty_store
              (store_set empty_store 1 CURLOPT_HEADER (PLong 1))
              (store_set (store_set empty_store 1 CURLOPT_HEADER (PLong 1))
                 1 CURLOPT_WRITEDATA (PObject 7))
              (store_set (store_set empty_store 1 CURLOPT_HEADER (PLong 1))
                 1 CURLOPT_WRITEDATA (PObject 7))
              1 7 NULL (CURLE_FAILED 43)
              (store_engine_Stores _) (store_engine_Frame _)
              (store_engine_RejectNoop _) eq_refl eq_refl eq_refl)
    as (Hres & Hhdr & Hctx & _).
  - discriminate.
  - split; [exact Hres |]. split; [exact Hhdr | exact Hctx].
Defined.

(** ** Replaying accepted calls *)

Lemma CURLoption_eq_dec (a b : CURLoption) : {a = b} + {a <> b}.
Proof.
  destruct (CURLoption_eqb a b) eqn:H.
  - left. now apply CURLoption_eqb_eq.
  - right. now apply CURLoption_eqb_neq.
Qed.

Lemma target_eq_dec (a b : CURL * CURLoption) : {a = b} + {a <> b}.
Proof.
  destruct a as [c o], b as [c' o'].
  destruct (Z.eq_dec c c') as [-> | Hc]; [| right; congruence].
  destruct (CURLoption_eq_dec o o') as [-> | Ho]; [left | right]; congruence.
Qed.

Lemma requests_of_NoDup (op : Operation) :
  NoDup (map target (requests_of op)).
Proof.
  destruct op; cbn; repeat constructor; cbn; intuition discriminate.
Qed.

(** After a run of accepted calls on distinct targets, each target holds
    the value its call carried. *)
Lemma replay_binds (E : Engine) (tr : list Exchange) (w : world E) :
  Stores E -> Frame E ->
  answered E w tr ->
  (forall x, In x tr -> code x = CURLE_OK) ->
  NoDup (map target (map request tr)) ->
  forall x, In x tr ->
    installed E (replay E (map request tr) w)
      (rq_curl (request x)) (rq_option (request x))
    = Some (rq_param (request x)).
Proof.
  intros HS HF. revert w.
  induction tr as [| y rest IH]; intros w Ha Hok Hnd x Hx; [destruct Hx |].
  cbn [map] in Hnd. inversion Hnd as [| ? ? Hfresh Hnd']; subst.
  destruct Ha as [Hy Ha]. cbn [map replay].
  destruct Hx as [<- | Hx].
  - rewrite replay_frame; [| exact HF |].
    + unfold serve in *.
      destruct (easy_setopt E w (rq_curl (request y)) (rq_option (request y))
                  (rq_param (request y))) as [rc w'] eqn:Hs.
      cbn [fst snd] in *. rewrite (Hok y (or_introl eq_refl)) in Hy.
      subst rc. exact (HS _ _ _ _ _ Hs).
    + intros rq Hin Heq. apply Hfresh. change (In (target (request y))
        (map target (map request rest))). unfold target at 1. rewrite Heq.
      now apply (in_map target).
  - apply IH; auto. intros z Hz. apply Hok. now right.
Qed.

(** Calls that carry the value their target already holds change no
    option, accepted or not. *)
Lemma replay_settled (E : Engine) (rqs : list Request) (w : world E) :
  Stores E -> Frame E -> RejectNoop E ->
  (forall rq, In rq rqs ->
              installed E w (rq_curl rq) (rq_option rq) = Some (rq_param rq)) ->
  forall curl' opt',
    installed E (replay E rqs w) curl' opt' = installed E w curl' opt'.
Proof.
  intros HS HF HR. revert w.
  induction rqs as [| rq rest IH]; intros w Hheld curl' opt'; [reflexivity |].
  cbn [replay].
  assert (Hstep : forall c o,
            installed E (snd (serve E w rq)) c o = installed E w c o).
  { intros c o. unfold serve.
    destruct (easy_setopt E w (rq_curl rq) (rq_option rq) (rq_param rq))
      as [rc w'] eqn:Hs. cbn [snd].
    destruct (CURLcode_OK_dec rc) as [-> | Hbad].
    - destruct (target_eq_dec (c, o) (rq_curl rq, rq_option rq))
        as [Heq | Hne].
      + inversion Heq; subst. rewrite (HS _ _ _ _ _ Hs).
        symmetry. apply Hheld. now left.
      + change w' with (snd (CURLE_OK, w')). rewrite <- Hs. now apply HF.
    - now rewrite (HR _ _ _ _ _ _ Hs Hbad). }
  rewrite IH; [apply Hstep |].
  intros r Hr. rewrite Hstep. apply Hheld. now right.
Qed.

Lemma perform_success_binds (E : Engine) (w : world E) (op : Operation) :
  Stores E -> Frame E ->
  result (run E (perform op) w) = CURLE_OK ->
  forall rq, In rq (requests_of op) ->
    installed E (final (run E (perform op) w)) (rq_curl rq) (rq_option rq)
    = Some (rq_param rq).
Proof.
  intros HS HF Hok rq Hrq.
  pose proof (perform_success_requests E w op Hok) as Hreqs.
  rewrite <- Hreqs in Hrq. apply in_map_iff in Hrq.
  destruct Hrq as (x & <- & Hx). rewrite run_replay.
  apply replay_binds; auto.
  - apply run_answered.
  - apply chain_success. rewrite <- Hok. apply perform_chain.
  - rewrite Hreqs. apply requests_of_NoDup.
Qed.

(** ** How operations compose *)

(** X8: two operations that cannot meet (they are called on different
    sessions, or their bodies name no option in common) can be issued in
    either order: when both succeed in both orders, every option of every
    session ends up the same. *)
Theorem operations_commute (E : Engine) (w : world E) (op1 op2 : Operation)
  (curl' : CURL) (opt' : CURLoption) :
  Stores E -> Frame E ->
  session_of op1 <> session_of op2
  \/ (forall o, In o (options_of op1) -> ~ In o (options_of op2)) ->
  result (run E (perform op1) w) = CURLE_OK ->
  result (run E (perform op2) (final (run E (perform op1) w))) = CURLE_OK ->
  result (run E (perform op2) w) = CURLE_OK ->
  result (run E (perform op1) (final (run E (perform op2) w))) = CURLE_OK ->
  installed E (final (run E (perform op2) (final (run E (perform op1) w))))
    curl' opt'
  = installed E (final (run E (perform op1) (final (run E (perform op2) w))))
      curl' opt'.
Proof.
  intros HS HF Hapart Hok1 Hok12 Hok2 Hok21.
  destruct (in_dec target_eq_dec (curl', opt') (map target (requests_of op1)))
    as [Hin1 | Hout1].
  - (* set by op1, out of reach of op2 *)
    apply in_map_iff in Hin1. destruct Hin1 as (rq & Ht & Hrq).
    inversion Ht; subst curl' opt'.
    rewrite (perform_success_binds E _ op1 HS HF Hok21 rq Hrq).
    rewrite perform_frame; [now apply perform_success_binds | exact HF |].
    rewrite (requests_of_session _ _ Hrq).
    destruct Hapart as [Hs | Ho]; [left; congruence | right].
    apply Ho. rewrite <- requests_of_options. now apply in_map.
  - destruct (in_dec target_eq_dec (curl', opt')
                (map target (requests_of op2))) as [Hin2 | Hout2].
    + (* set by op2, out of reach of op1 *)
      apply in_map_iff in Hin2. destruct Hin2 as (rq & Ht & Hrq).
      inversion Ht; subst curl' opt'.
      rewrite (perform_success_binds E _ op2 HS HF Hok12 rq Hrq).
      rewrite perform_frame;
        [symmetry; now apply perform_success_binds | exact HF |].
      rewrite (requests_of_session _ _ Hrq).
      destruct Hapart as [Hs | Ho]; [left; congruence | right].
      intros Hin. apply (Ho _ Hin).
      rewrite <- requests_of_options. now apply in_map.
    + (* set by neither *)
      assert (Hfree : forall op,
                ~ In (curl', opt') (map target (requests_of op)) ->
                session_of op <> curl' \/ ~ In opt' (options_of op)).
      { intros op Hout.
        destruct (Z.eq_dec (session_of op) curl') as [Hs | Hs];
          [right | now left].
        intros Hin. apply Hout. rewrite <- requests_of_options in Hin.
        apply in_map_iff in Hin. destruct Hin as (rq & Ho & Hrq).
        apply in_map_iff. exists rq. split; [| exact Hrq].
        unfold target. now rewrite (requests_of_session _ _ Hrq), Hs, Ho. }
      rewrite !perform_frame; auto.
Qed.

Lemma operations_commute_witness :
  installed (store_engine permissive)
    (final (run (store_engine permissive) (perform (SetOptReadFunc 1 7 9))
              (final (run (store_engine permissive)
                        (perform (SetOptWriteFunc 1 3 5)) empty_store))))
    1 CURLOPT_WRITEDATA
  = installed (store_engine permissive)
      (final (run (store_engine permissive) (perform (SetOptWriteFunc 1 3 5))
                (final (run (store_engine permissive)
                          (perform (SetOptReadFunc 1 7 9)) empty_store))))
      1 CURLOPT_WRITEDATA.
Proof.
  apply (operations_commute (store_engine permissive) empty_store
           (SetOptWriteFunc 1 3 5) (SetOptReadFunc 1 7 9)
           1 CURLOPT_WRITEDATA).
  - apply store_engine_Stores.
  - apply store_engine_Frame.
  - right. cbn. intros o [<- | [<- | [<- | []]]] [H | [H | []]];
      discriminate H.
  - reflexivity.
  - reflexivity.
  - reflexivity.
  - reflexivity.
Defined.

(** X9: once an operation has succeeded, issuing the same operation again
    changes no option of any session, whether the second attempt succeeds
    or is refused at any of its calls. *)
Theorem operation_repeat_after_success (E : Engine) (w : world E)
  (op : Operation) (curl' : CURL) (opt' : CURLoption) :
  Stores E -> Frame E -> RejectNoop E ->
  result (run E (perform op) w) = CURLE_OK ->
  installed E
    (final (run E (perform op) (final (run E (perform op) w)))) curl' opt'
  = installed E (final (run E (perform op) w)) curl' opt'.
Proof.
  intros HS HF HR Hok.
  rewrite (run_replay E (perform op) (final (run E (perform op) w))).
  apply replay_settled; auto.
  intros rq Hrq. apply perform_success_binds; auto.
  apply in_map_iff in Hrq. destruct Hrq as (x & <- & Hx).
  now apply (perform_requests_in E (final (run E (perform op) w))).
Qed.

Lemma operation_repeat_after_success_witness :
  installed (store_engine permissive)
    (final (run (store_engine permissive) (perform (SetOptWriteFunc 1 3 5))
              (final (run (store_engine permissive)
                        (perform (SetOptWriteFunc 1 3 5)) empty_store))))
    1 CURLOPT_WRITEFUNCTION
  = installed (store_engine permissive)
      (final (run (store_engine permissive) (perform (SetOptWriteFunc 1 3 5))
                empty_store))
      1 CURLOPT_WRITEFUNCTION.
Proof.
  apply (operation_repeat_after_success (store_engine permissive) empty_store
           (SetOptWriteFunc 1 3 5) 1 CURLOPT_WRITEFUNCTION).
  - apply store_engine_Stores.
  - apply store_engine_Frame.
  - apply store_engine_RejectNoop.
  - reflexivity.
Defined.

Lemma setopt_twice (E : Engine) (w : world E) (curl : CURL)
  (opt : CURLoption) (v : param) (curl' : CURL) (opt' : CURLoption) :
  Stores E -> Frame E -> RejectNoop E ->
  installed E
    (final (run E (curl_easy_setopt curl opt v)
              (final (run E (curl_easy_setopt curl opt v) w))))
    curl' opt'
  = installed E (final (run E (curl_easy_setopt curl opt v) w)) curl' opt'.
Proof.
  intros HS HF HR. rewrite !run_setopt. cbn [final].
  destruct (easy_setopt E w curl opt v) as [rc1 w1] eqn:H1. cbn [snd].
  destruct (CURLcode_OK_dec rc1) as [-> | Hbad].
  - change w1 with (replay E [] w1) at 2.
    change (snd (easy_setopt E w1 curl opt v))
      with (replay E [mkRequest curl opt v] w1).
    apply replay_settled; auto.
    intros rq [<- | []]. exact (HS _ _ _ _ _ H1).
  - assert (w1 = w) as -> by exact (HR _ _ _ _ _ _ H1 Hbad).
    now rewrite H1.
Qed.

(** X10: for each operation that is a single engine call (headers,
    integer, string, flag), issuing it twice in a row with the same
    arguments leaves every option of every session as issuing it once
    does, whether the engine accepts or refuses it. *)
Theorem single_call_operation_idempotent (E : Engine) (w : world E)
  (op : Operation) (curl' : CURL) (opt' : CURLoption) :
  Stores E -> Frame E -> RejectNoop E ->
  List.length (options_of op) = 1%nat ->
  installed E
    (final (run E (perform op) (final (run E (perform op) w)))) curl' opt'
  = installed E (final (run E (perform op) w)) curl' opt'.
Proof.
  intros HS HF HR Hone.
  destruct (perform_single op Hone) as (opt & v & _ & ->).
  now apply setopt_twice.
Qed.

Lemma single_call_operation_idempotent_witness :
  installed (store_engine (refuse_option (CURLOPT_OTHER 13)))
    (final (run (store_engine (refuse_option (CURLOPT_OTHER 13)))
              (perform (SetOptInt 1 (CURLOPT_OTHER 13) 30))
              (final (run (store_engine (refuse_option (CURLOPT_OTHER 13)))
                        (perform (SetOptInt 1 (CURLOPT_OTHER 13) 30))
                        empty_store))))
    1 (CURLOPT_OTHER 13)
  = installed (store_engine (refuse_option (CURLOPT_OTHER 13)))
      (final (run (store_engine (refuse_option (CURLOPT_OTHER 13)))
                (perform (SetOptInt 1 (CURLOPT_OTHER 13) 30)) empty_store))
      1 (CURLOPT_OTHER 13).
Proof.
  apply (single_call_operation_idempotent
           (store_engine (refuse_option (CURLOPT_OTHER 13))) empty_store
           (SetOptInt 1 (CURLOPT_OTHER 13) 30) 1 (CURLOPT_OTHER 13)).
  - apply store_engine_Stores.
  - apply store_engine_Frame.
  - apply store_engine_RejectNoop.
  - reflexivity.
Defined.

(** X11: the flag shim and the integer shim, given the same handle, option
    and number, send the engine the same call exactly when the number is
    one of the two sentinels 0 and 1; in that case the whole outcome is the
    same, and for any other number the integer shim sends the number itself
    where the flag shim sends 0. *)
Theorem set_flag_versus_set_integer (E : Engine) (w : world E) (curl : CURL)
  (opt : CURLoption) (n : Z) :
  (map request (trace (run E (curlHelperSetOptBool curl opt n) w))
   = map request (trace (run E (curlHelperSetOptInt curl opt n) w))
   <-> n = CURL_FALSE \/ n = CURL_TRUE)
  /\ (n = CURL_FALSE \/ n = CURL_TRUE ->
      run E (curlHelperSetOptBool curl opt n) w
      = run E (curlHelperSetOptInt curl opt n) w)
  /\ (n <> CURL_FALSE -> n <> CURL_TRUE ->
      map request (trace (run E (curlHelperSetOptBool curl opt n) w))
      = [mkRequest curl opt (PLong 0)]
      /\ map request (trace (run E (curlHelperSetOptInt curl opt n) w))
         = [mkRequest curl opt (PLong n)]).
Proof.
  unfold curlHelperSetOptBool, curlHelperSetOptInt, CURL_TRUE, CURL_FALSE.
  rewrite !run_setopt. cbn [trace map request].
  destruct (Z.eqb_spec n 1) as [-> | Hne].
  - split; [split; [now right | reflexivity] |].
    split; [reflexivity | intros _ H; now elim H].
  - split; [split |].
    + intros H. inversion H. now left.
    + intros [-> | ->]; [reflexivity | now elim Hne].
    + split; [intros [-> | ->]; [reflexivity | now elim Hne] |].
      intros _ _. split; reflexivity.
Qed.

(** X12: whichever operation returns success, the session then holds, for
    every engine call of its body, exactly the value that call carried:
    the number or string given to the integer and string shims unchanged,
    the header list, 0 or 1 for a flag, and every half of a callback
    registration. *)
Theorem operation_success_installs_all (E : Engine) (w : world E)
  (op : Operation) (rq : Request) :
  Stores E -> Frame E ->
  result (run E (perform op) w) = CURLE_OK ->
  In rq (requests_of op) ->
  installed E (final (run E (perform op) w)) (session_of op) (rq_option rq)
  = Some (rq_param rq).
Proof.
  intros HS HF Hok Hrq. rewrite <- (requests_of_session op rq Hrq).
  now apply perform_success_binds.
Qed.

Lemma operation_success_installs_all_witness :
  installed (store_engine permissive)
    (final (run (store_engine permissive)
              (perform (SetOptString 1 (CURLOPT_OTHER 10002) ""%string))
              (store_set empty_store 1 (CURLOPT_OTHER 10002)
                 (PString "http://a"%string))))
    1 (CURLOPT_OTHER 10002)
  = Some (PString ""%string).
Proof.
  apply (operation_success_installs_all (store_engine permissive)
           (store_set empty_store 1 (CURLOPT_OTHER 10002)
              (PString "http://a"%string))
           (SetOptString 1 (CURLOPT_OTHER 10002) ""%string)
           (mkRequest 1 (CURLOPT_OTHER 10002) (PString ""%string))).
  - apply store_engine_Stores.
  - apply store_engine_Frame.
  - reflexivity.
  - left. reflexivity.
Defined.
